(** * Dolly data preparation: the Stack Exchange Q&A pipeline

    A shallow embedding of [01_data_preperation.py]: the Filter & Clean
    stage ([gardening_df]), the question/answer self-join ([qa_df]), the
    training documents ([docs_df]), the persisted tables, and the
    summarization UDF ([summarize]).

    Dataframes are lists of rows (a table is read as the multiset of its
    rows; statements that must not depend on row order are phrased with
    membership and occurrence counts).  The HTML parser and the
    summarization model are external libraries: they are parameters of the
    development. *)

From Stdlib Require Import ZArith Strings.String Strings.Ascii Strings.Byte.
From stdpp Require Import base decidable option list strings gmap.

Local Open Scope Z_scope.

(** ** Data model *)

(** A text is a Rocq string that holds its UTF-8 encoding, one [ascii] per
    byte.  In UTF-8 a character is one leading byte followed by continuation
    bytes, and the continuation bytes are those of the form 10xxxxxx; the
    characters of a text are counted by its other bytes. *)
Definition continuation_byte (c : ascii) : bool :=
  let 'Ascii _ _ _ _ _ _ b6 b7 := c in b7 && negb b6.

Fixpoint characters (s : string) : nat :=
  match s with
  | EmptyString => 0
  | String c s' => (if continuation_byte c then 0 else 1) + characters s'
  end.

(** Python's [len] and Spark's [length]: the number of characters of the
    text, not of bytes of its encoding. *)
Definition len (s : string) : Z := Z.of_nat (characters s).

(** A row of [Posts.xml] as spark-xml reads it.  Only the four attributes
    the pipeline touches are kept.  Every row of the dump has an [Id], a
    [Score] and a [Body]; [ParentId] is absent on questions, which makes the
    column null there. *)
Record Post := mkPost {
  _Id : Z;
  _ParentId : option Z;
  _Score : Z;
  _Body : string
}.

(** A row of the table [gardening_dataset]: [select("id", "body", "parent_id")]. *)
Record CleanedPost := mkCleanedPost {
  id : Z;
  body : string;
  parent_id : option Z
}.

(** A row of [qa_df]: [toDF("answer_id", "question", "answer")]. *)
Record QAPair := mkQAPair {
  answer_id : Z;
  question : string;
  answer : string
}.

(** A row of [docs_df]: [toDF("source", "text")]. *)
Record TrainingDocument := mkTrainingDocument {
  source : Z;
  text : string
}.

#[global] Instance Post_eq_dec : EqDecision Post.
Proof. solve_decision. Defined.
#[global] Instance CleanedPost_eq_dec : EqDecision CleanedPost.
Proof. solve_decision. Defined.
#[global] Instance QAPair_eq_dec : EqDecision QAPair.
Proof. solve_decision. Defined.
#[global] Instance TrainingDocument_eq_dec : EqDecision TrainingDocument.
Proof. solve_decision. Defined.

(** How many times a row occurs in a dataframe. *)
Definition occurrences `{EqDecision A} (x : A) (l : list A) : nat :=
  length (filter (x =.) l).

(** ** Stage 3: Filter & Clean *)

Section FilterClean.

(** [BeautifulSoup(x).get_text()]: the HTML parser of the [bs4] library. *)
Variable get_text : string → string.

(** The pandas UDF [html_to_text]: [html.apply(lambda x: ...)] over a
    column. *)
Definition html_to_text (html : list string) : list string :=
  (λ x, get_text x) <$> html.

(** [df.withColumn(name, udf(col))]: the UDF is run on the column and its
    output is put back next to the rows, position by position. *)
Definition withColumn {R} (udf : list string → list string)
    (col : R → string) (df : list R) : list (R * string) :=
  zip df (udf (col <$> df)).

(** The two [filter] calls of lines 127-128, in the order of the source: the
    length is taken on [_Body], before [html_to_text] runs. *)
Definition filtered (raw_gardening : list Post) : list Post :=
  filter (λ r, len (_Body r) <= 1000)
    (filter (λ r, _Score r >= 5) raw_gardening).

(** Lines 129-132: the new column, the two renamings and the [select]. *)
Definition gardening_df (raw_gardening : list Post) : list CleanedPost :=
  (λ '(r, b), {| id := _Id r; body := b; parent_id := _ParentId r |})
    <$> withColumn html_to_text _Body (filtered raw_gardening).

End FilterClean.

(** ** The metastore: tables saved by name *)

Inductive table :=
| CleanedPosts (rows : list CleanedPost)
| TrainingDocuments (rows : list TrainingDocument).

(** [df.write.mode("overwrite").saveAsTable(name)]: whatever was stored
    under [name] is replaced; other tables are left alone. *)
Definition saveAsTable (name : string) (df : table)
    (metastore : gmap string table) : gmap string table :=
  <[name := df]> metastore.

(** [spark.table(name)]; [None] when no such table exists. *)
Definition spark_table (name : string) (metastore : gmap string table)
    : option table :=
  metastore !! name.

(** Lines 126-135 as one step on the metastore. *)
Definition filter_and_clean (get_text : string → string)
    (raw_gardening : list Post) (metastore : gmap string table)
    : gmap string table :=
  saveAsTable "gardening_dataset"
    (CleanedPosts (gardening_df get_text raw_gardening)) metastore.

(** ** Stage 4: question/answer assembly *)

(** SQL equality on a nullable integer column: unknown as soon as one side
    is null. *)
Definition sql_eq (x y : option Z) : option bool :=
  match x, y with
  | Some u, Some v => Some (bool_decide (u = v))
  | _, _ => None
  end.

(** [l.join(r, on=[cond])]: the inner join keeps the pairs of rows on which
    the condition is true (not false, not unknown).  [matches on a r] are
    the rows that the left row [a] contributes. *)
Definition matches {A B} (on : A → B → option bool) (a : A) (r : list B)
    : list (A * B) :=
  b ← r; if on a b is Some true then [(a, b)] else [].

Definition join {A B} (l : list A) (r : list B) (on : A → B → option bool)
    : list (A * B) :=
  a ← l; matches on a r.

(** The self-join of lines 144-145, before the [select]: side [a] holds the
    questions, side [b] the whole table. *)
Definition qa_join (gardening_df : list CleanedPost)
    : list (CleanedPost * CleanedPost) :=
  join (filter (λ a, parent_id a = None) gardening_df) gardening_df
       (λ a b, sql_eq (Some (id a)) (parent_id b)).

Definition qa_df (gardening_df : list CleanedPost) : list QAPair :=
  (λ '(a, b), {| answer_id := id b; question := body a; answer := body b |})
    <$> qa_join gardening_df.

(** [F.lit("\n\n")]: two line feeds. *)
Definition LF : ascii := "010"%char.
Definition separator : string := String LF (String LF EmptyString).

Definition docs_df (gardening_df : list CleanedPost) : list TrainingDocument :=
  (λ p, {| source := answer_id p;
           text := question p +:+ separator +:+ answer p |})
    <$> qa_df gardening_df.

(** Lines 141-150 and 192 as one step on the metastore: the cleaned table is
    read back by name, and the documents are saved. *)
Definition assemble (metastore : gmap string table)
    : option (gmap string table) :=
  match spark_table "gardening_dataset" metastore with
  | Some (CleanedPosts gardening_df) =>
      Some (saveAsTable "gardening_training_dataset"
              (TrainingDocuments (docs_df gardening_df)) metastore)
  | _ => None
  end.

(** ** Stage 5: summarization *)

(** Python exceptions, as far as [summarize] can meet them. *)
Inductive exn :=
| ModelError (* raised inside the summarization model *)
| IndexError
| KeyError.

Inductive result (A : Type) :=
| Ok (a : A)
| Raise (e : exn).
Arguments Ok {A} a.
Arguments Raise {A} e.

#[global] Instance result_ret : MRet result := λ A, Ok.
#[global] Instance result_bind : MBind result := λ A B f m,
  match m with
  | Ok a => f a
  | Raise e => Raise e
  end.

(** [xs[0]] *)
Definition getitem_0 {A} (xs : list A) : result A :=
  match xs with
  | x :: _ => Ok x
  | [] => Raise IndexError
  end.

(** [d[key]] *)
Definition getitem (key : string) (d : gmap string string) : result string :=
  match d !! key with
  | Some v => Ok v
  | None => Raise KeyError
  end.

Section Summarize.

(** [pipeline("summarization", model="sshleifer/distilbart-cnn-12-6")]: the
    loaded model, called on one text; it returns a list of dictionaries or
    raises. *)
Variable summarizer : string → result (list (gmap string string)).

Definition summarize_txt (text : string) : result string :=
  if bool_decide (len text > 5000) then
    out ← summarizer text;
    first ← getitem_0 out;
    getitem "summary_text" first
  else Ok text.

(** [serie.apply(f)]: [f] on each row in turn; the first exception ends it. *)
Definition Series_apply {A B} (f : A → result B) (serie : list A)
    : result (list B) :=
  mapM f serie.

(** The generator [summarize], run to its end: one output series per input
    series, or the exception that stopped it. *)
Definition summarize (iterator : list (list string))
    : result (list (list string)) :=
  mapM (λ serie, Series_apply summarize_txt serie) iterator.

End Summarize.

(** ** Stages 3 and 4 when the parser can raise *)

Section RaisingParser.

(** [BeautifulSoup(x).get_text()] once more, with its exceptions: a call
    returns the text or raises. *)
Variable parse : string → result string.

(** The pandas UDF [html_to_text]: [html.apply] stops at the first row on
    which the lambda raises. *)
Definition html_to_text_raising (html : list string) : result (list string) :=
  Series_apply parse html.

(** Lines 126-135.  The UDF is run on the rows that passed the two filters;
    the table is saved when it has returned. *)
Definition filter_and_clean_raising (raw_gardening : list Post)
    (metastore : gmap string table) : result (gmap string table) :=
  bodies ← html_to_text_raising (_Body <$> filtered raw_gardening);
  mret (saveAsTable "gardening_dataset"
          (CleanedPosts
             ((λ '(r, b), {| id := _Id r; body := b; parent_id := _ParentId r |})
                <$> zip (filtered raw_gardening) bodies))
          metastore).

(** Stage 3, then stage 4 ([None] when stage 4 does not find its table). *)
Definition notebook_raising (raw_gardening : list Post)
    (metastore : gmap string table) : result (option (gmap string table)) :=
  saved ← filter_and_clean_raising raw_gardening metastore;
  mret (assemble saved).

End RaisingParser.

(** ** Concrete inputs and the failure policy of the specification *)

(** A text of [n] characters. *)
Definition text_of_length (n : Z) : string :=
  string_of_list_ascii (replicate (Z.to_nat n) "a"%char).

(** [n] copies of a text, one after the other. *)
Definition repeated (n : Z) (s : string) : string :=
  String.concat "" (replicate (Z.to_nat n) s).

(** A parser that raises on one body and returns every other body as it
    is. *)
Definition rejecting_parser (rejected body : string) : result string :=
  if bool_decide (body = rejected) then Raise IndexError else Ok body.

(** A model that answers every text with the same summary. *)
Definition canned_summarizer (text : string)
    : result (list (gmap string string)) :=
  Ok [{[ "summary_text" := "A summary." ]}].

(** A model that raises on a text of more than 6000 characters. *)
Definition limited_summarizer (text : string)
    : result (list (gmap string string)) :=
  if bool_decide (len text > 6000) then Raise ModelError
  else canned_summarizer text.

(** A model that raises on every text. *)
Definition failing_summarizer (text : string)
    : result (list (gmap string string)) :=
  Raise ModelError.

(** One series of four documents: two short ones, one of 5001 characters and
    one of 6001 characters. *)
Definition batch : list (list string) :=
  [["Short question."; text_of_length 5001; text_of_length 6001;
    "Short answer."]].

(** The failure policy as the specification words it: the run gives an
    output, in which a document whose summarization failed is kept as it
    was and every other document is processed. *)
Definition falls_back
    (summarizer : string → result (list (gmap string string)))
    (iterator out : list (list string)) : Prop :=
  Forall2 (Forall2 (λ text o,
    match summarize_txt summarizer text with
    | Ok summary => o = summary
    | Raise _ => o = text
    end)) iterator out.

(** A cleaned table with one question and two answers to it. *)
Definition roses : list CleanedPost :=
  [mkCleanedPost 1 "How to water roses?" None;
   mkCleanedPost 2 "Water daily." (Some 1);
   mkCleanedPost 4 "Water weekly." (Some 1)].

(** ** The notebook, cell after cell *)

(** Lines 126-150 and 192 in the order of the notebook: stage 3 saves the
    cleaned table, stage 4 reads it back by name and saves the documents. *)
Definition notebook (get_text : string → string) (raw_gardening : list Post)
    (metastore : gmap string table) : option (gmap string table) :=
  assemble (filter_and_clean get_text raw_gardening metastore).

(** A row of a cleaned table that points to a question of that table. *)
Definition answers_a_question (t : list CleanedPost) (b : CleanedPost)
    : Prop :=
  Exists (λ a, parent_id a = None ∧ parent_id b = Some (id a)) t.

#[global] Instance answers_a_question_dec (t : list CleanedPost)
    (b : CleanedPost) : Decision (answers_a_question t b).
Proof. unfold answers_a_question. apply _. Defined.

(** * Properties *)

(** ** Occurrence counts *)

(** Case analysis on every [decide] of a goal about counts. *)
Ltac count_cases :=
  repeat case_decide; destruct_and?; simplify_eq;
  first [done | lia | tauto | exfalso; intuition congruence].

Section Occurrences.
Context `{EqDecision A}.
Implicit Types (x : A) (l k : list A).

Lemma occurrences_nil x : occurrences x [] = 0%nat.
Proof. reflexivity. Qed.

Lemma occurrences_cons x y l :
  occurrences x (y :: l)
  = ((if decide (x = y) then 1 else 0) + occurrences x l)%nat.
Proof.
  unfold occurrences. rewrite filter_cons.
  destruct (decide (x = y)); reflexivity.
Qed.

Lemma occurrences_app x l k :
  occurrences x (l ++ k) = (occurrences x l + occurrences x k)%nat.
Proof. unfold occurrences. by rewrite filter_app, length_app. Qed.

Lemma occurrences_zero x l : occurrences x l = 0%nat ↔ x ∉ l.
Proof.
  induction l as [|y l IH]; [split; [intros _; apply not_elem_of_nil|done]|].
  rewrite occurrences_cons, not_elem_of_cons, <- IH.
  destruct (decide (x = y)); intuition lia.
Qed.

Lemma occurrences_filter (P : A → Prop) `{∀ y, Decision (P y)} x l :
  occurrences x (filter P l)
  = if decide (P x) then occurrences x l else 0%nat.
Proof.
  induction l as [|y l IH]; [by destruct (decide (P x))|].
  rewrite filter_cons. destruct (decide (P y)) as [Hy|Hy].
  - rewrite !occurrences_cons, IH. count_cases.
  - rewrite IH, occurrences_cons. count_cases.
Qed.

Lemma occurrences_NoDup x l : NoDup l → x ∈ l → occurrences x l = 1%nat.
Proof.
  induction 1 as [|y l Hy Hl IH]; [by intros ?%elem_of_nil|].
  rewrite occurrences_cons. intros [->|Hx]%elem_of_cons.
  - rewrite decide_True by done. apply occurrences_zero in Hy. lia.
  - rewrite decide_False by (intros ->; done). by rewrite IH.
Qed.

End Occurrences.

(** ** Filter & Clean *)

Section FilterCleanFacts.
Variable get_text : string → string.

Lemma withColumn_html_to_text (df : list Post) :
  withColumn (html_to_text get_text) _Body df
  = (λ r, (r, get_text (_Body r))) <$> df.
Proof.
  unfold withColumn, html_to_text.
  induction df as [|r df IH]; [done|]. cbn. by f_equal.
Qed.

Lemma gardening_df_filtered (raw : list Post) :
  gardening_df get_text raw
  = (λ r, mkCleanedPost (_Id r) (get_text (_Body r)) (_ParentId r))
      <$> filtered raw.
Proof.
  unfold gardening_df. rewrite withColumn_html_to_text.
  by rewrite <- list_fmap_compose.
Qed.

Lemma elem_of_filtered (raw : list Post) (p : Post) :
  p ∈ filtered raw ↔ p ∈ raw ∧ _Score p >= 5 ∧ len (_Body p) <= 1000.
Proof. unfold filtered. rewrite !list_elem_of_filter. tauto. Qed.

Lemma occurrences_filtered (raw : list Post) (p : Post) :
  occurrences p (filtered raw)
  = if decide (_Score p >= 5 ∧ len (_Body p) <= 1000)
    then occurrences p raw else 0%nat.
Proof.
  unfold filtered. rewrite !occurrences_filter. count_cases.
Qed.

(** The UDF works row by row, so a second pass changes nothing exactly when
    the parser changes none of its own outputs on the column. *)
Lemma html_to_text_twice (html : list string) :
  html_to_text get_text (html_to_text get_text html)
  = html_to_text get_text html
  ↔ Forall (λ x, get_text (get_text x) = get_text x) html.
Proof.
  unfold html_to_text. induction html as [|x html IH]; [done|].
  rewrite Forall_cons, <- IH. cbn. split.
  - by intros [= ? ?].
  - intros [-> ->]. done.
Qed.

(** Stage 4 reads back what stage 3 saved, whatever was stored before. *)
Lemma assemble_filter_and_clean (raw : list Post)
    (before : gmap string table) :
  assemble (filter_and_clean get_text raw before)
  = Some (saveAsTable "gardening_training_dataset"
            (TrainingDocuments (docs_df (gardening_df get_text raw)))
            (filter_and_clean get_text raw before)).
Proof.
  unfold assemble, spark_table, filter_and_clean, saveAsTable.
  by rewrite lookup_insert_eq.
Qed.

End FilterCleanFacts.

(** C2: the Filter & Clean stage keeps a post if and only if its score is at
    least 5 and the length of its raw HTML body is at most 1000, the length
    being taken on [_Body] as parsed, before the tags are stripped.  A post
    with score below 5 or a raw body longer than 1000 is not kept, and the
    cleaned table holds exactly the rows made from the kept posts. *)
Theorem filter_clean_keeps_iff (get_text : string → string) (raw : list Post) :
  (∀ p, p ∈ filtered raw ↔ p ∈ raw ∧ _Score p >= 5 ∧ len (_Body p) <= 1000)
  ∧ (∀ p, occurrences p (filtered raw)
          = if decide (_Score p >= 5 ∧ len (_Body p) <= 1000)
            then occurrences p raw else 0%nat)
  ∧ (∀ p, _Score p < 5 ∨ len (_Body p) > 1000 → p ∉ filtered raw)
  ∧ gardening_df get_text raw
    = (λ r, mkCleanedPost (_Id r) (get_text (_Body r)) (_ParentId r))
        <$> filtered raw
  ∧ (∀ row, row ∈ gardening_df get_text raw ↔
       ∃ p, p ∈ raw ∧ _Score p >= 5 ∧ len (_Body p) <= 1000
            ∧ row = mkCleanedPost (_Id p) (get_text (_Body p)) (_ParentId p)).
Proof.
  split_and!.
  - apply elem_of_filtered.
  - apply occurrences_filtered.
  - intros p Hp [_ ?]%elem_of_filtered. lia.
  - apply gardening_df_filtered.
  - intros row. rewrite gardening_df_filtered, list_elem_of_fmap.
    setoid_rewrite elem_of_filtered. split.
    + intros (p & -> & Hp & Hscore & Hlen). by exists p.
    + intros (p & Hp & Hscore & Hlen & ->). by exists p.
Qed.

(** The example of the specification: a post with score 4 is dropped, the
    same body with score 10 is kept and its body is what the parser makes of
    it. *)
Example filter_clean_example (get_text : string → string) :
  gardening_df get_text
    [mkPost 1 None 4 "<p>ok</p>"; mkPost 2 None 10 "<p>ok</p>"]
  = [mkCleanedPost 2 (get_text "<p>ok</p>") None].
Proof. reflexivity. Qed.

(** The length that counts is that of the raw body: a post of 1001
    characters is dropped even under a parser that strips it to nothing, and
    a post of 1000 characters is kept. *)
Example filter_clean_raw_length :
  gardening_df (λ _, "") [mkPost 1 None 10 (text_of_length 1001);
                          mkPost 2 None 10 (text_of_length 1000)]
  = [mkCleanedPost 2 "" None].
Proof. vm_compute. reflexivity. Qed.

(** Characters, not bytes: a body of 400 characters that takes 1200 bytes
    is kept, and so is a body of exactly 1000 characters one of which takes
    two bytes. *)
Example filter_clean_counts_characters :
  len "20°C" = 4
  ∧ len (repeated 400 "花") = 400
  ∧ len (repeated 996 "a" +:+ "20°C") = 1000
  ∧ gardening_df (λ x, x)
      [mkPost 1 None 10 (repeated 400 "花");
       mkPost 2 None 10 (repeated 996 "a" +:+ "20°C");
       mkPost 3 None 10 (repeated 1001 "花")]
    = [mkCleanedPost 1 (repeated 400 "花") None;
       mkCleanedPost 2 (repeated 996 "a" +:+ "20°C") None].
Proof. split_and!; vm_compute; reflexivity. Qed.

(** C10: the Filter & Clean stage changes the body only: row by row, the
    [id] and [parent_id] of the cleaned table are the [_Id] and [_ParentId]
    of the posts that passed the filter, and the body is the parser's output
    on [_Body]. *)
Theorem filter_clean_frame (get_text : string → string) (raw : list Post) :
  id <$> gardening_df get_text raw = _Id <$> filtered raw
  ∧ parent_id <$> gardening_df get_text raw = _ParentId <$> filtered raw
  ∧ (∀ i p, filtered raw !! i = Some p →
       ∃ row, gardening_df get_text raw !! i = Some row
              ∧ id row = _Id p ∧ parent_id row = _ParentId p
              ∧ body row = get_text (_Body p))
  ∧ (∀ i row, gardening_df get_text raw !! i = Some row →
       ∃ p, filtered raw !! i = Some p
            ∧ id row = _Id p ∧ parent_id row = _ParentId p).
Proof.
  rewrite gardening_df_filtered. split_and!.
  - by rewrite <- list_fmap_compose.
  - by rewrite <- list_fmap_compose.
  - intros i p Hp. rewrite list_lookup_fmap, Hp. eauto.
  - intros i row. rewrite list_lookup_fmap.
    destruct (filtered raw !! i) as [p|]; [|done].
    intros [= <-]. eauto.
Qed.

(** ** The inner join *)

Section Join.
Context {A B : Type}.
Implicit Types (l : list A) (r : list B) (on : A → B → option bool).

Lemma join_nil r on : join [] r on = [].
Proof. reflexivity. Qed.

Lemma join_cons a l r on : join (a :: l) r on = matches on a r ++ join l r on.
Proof. reflexivity. Qed.

Lemma elem_of_matches on a r a' b :
  (a', b) ∈ matches on a r ↔ a' = a ∧ b ∈ r ∧ on a b = Some true.
Proof.
  unfold matches. rewrite list_elem_of_bind. split.
  - intros (b' & Hin & Hb').
    destruct (on a b') as [[]|] eqn:Hon; try by apply elem_of_nil in Hin.
    apply list_elem_of_singleton in Hin as [= -> ->]. done.
  - intros (-> & Hb & Hon). exists b. rewrite Hon.
    split; [apply list_elem_of_singleton|]; done.
Qed.

Lemma elem_of_join l r on a b :
  (a, b) ∈ join l r on ↔ a ∈ l ∧ b ∈ r ∧ on a b = Some true.
Proof.
  induction l as [|a' l IH].
  - rewrite join_nil. split; [by intros ?%elem_of_nil|].
    by intros [?%elem_of_nil _].
  - rewrite join_cons, elem_of_app, elem_of_matches, IH, elem_of_cons.
    intuition congruence.
Qed.

Context `{EqDecision A, EqDecision B}.

Lemma occurrences_matches on a r a' b :
  occurrences (a', b) (matches on a r)
  = if decide (a' = a ∧ on a b = Some true) then occurrences b r else 0%nat.
Proof.
  induction r as [|b' r IH]; [by case_decide|].
  change (matches on a (b' :: r))
    with ((if on a b' is Some true then [(a, b')] else []) ++ matches on a r).
  rewrite occurrences_app, IH, occurrences_cons.
  destruct (on a b') as [[]|] eqn:Hon; cbn [app].
  - rewrite occurrences_cons, occurrences_nil.
    destruct (decide (b = b')) as [->|Hb].
    + rewrite Hon. count_cases.
    + count_cases.
  - rewrite occurrences_nil.
    destruct (decide (b = b')) as [->|Hb]; [rewrite Hon|]; count_cases.
  - rewrite occurrences_nil.
    destruct (decide (b = b')) as [->|Hb]; [rewrite Hon|]; count_cases.
Qed.

(** Multiset reading of the inner join: a pair of rows is in the result once
    for every way of picking its two rows, when the condition is true on
    it, and not at all otherwise. *)
Lemma occurrences_join l r on a b :
  occurrences (a, b) (join l r on)
  = if decide (on a b = Some true)
    then (occurrences a l * occurrences b r)%nat else 0%nat.
Proof.
  induction l as [|a' l IH]; [by case_decide|].
  rewrite join_cons, occurrences_app, occurrences_matches, IH,
    occurrences_cons.
  destruct (decide (a = a')) as [->|Ha]; count_cases.
Qed.

End Join.

(** ** Question/answer assembly *)

Lemma sql_eq_true (x : Z) (y : option Z) :
  sql_eq (Some x) y = Some true ↔ y = Some x.
Proof.
  destruct y as [v|]; cbn; [|done]. split.
  - intros [= Hv%bool_decide_eq_true]. by subst.
  - intros [= ->]. by rewrite bool_decide_eq_true_2.
Qed.

Lemma elem_of_qa_join (t : list CleanedPost) (q a : CleanedPost) :
  (q, a) ∈ qa_join t
  ↔ q ∈ t ∧ a ∈ t ∧ parent_id q = None ∧ parent_id a = Some (id q).
Proof.
  unfold qa_join.
  rewrite elem_of_join, list_elem_of_filter, sql_eq_true. tauto.
Qed.

Lemma occurrences_qa_join (t : list CleanedPost) (q a : CleanedPost) :
  occurrences (q, a) (qa_join t)
  = if decide (parent_id q = None ∧ parent_id a = Some (id q))
    then (occurrences q t * occurrences a t)%nat else 0%nat.
Proof.
  unfold qa_join. rewrite occurrences_join, occurrences_filter.
  pose proof (sql_eq_true (id q) (parent_id a)). count_cases.
Qed.

Lemma qa_join_nil (t : list CleanedPost) :
  (∀ q a, (q, a) ∉ qa_join t) → qa_join t = [].
Proof.
  destruct (qa_join t) as [|[q a] l]; [done|].
  intros H. destruct (H q a). left.
Qed.

Lemma length_docs_df (t : list CleanedPost) :
  length (docs_df t) = length (qa_join t).
Proof. unfold docs_df, qa_df. by rewrite !length_fmap. Qed.

(** *** Tables without duplicates *)

Lemma length_le_1 {A} (l : list A) :
  NoDup l → (∀ x y, x ∈ l → y ∈ l → x = y) → (length l ≤ 1)%nat.
Proof.
  destruct l as [|x [|y l]]; cbn; [lia..|].
  intros Hnd Heq. apply NoDup_cons_1_1 in Hnd. destruct Hnd.
  rewrite (Heq x y); [left|left|right; left].
Qed.

Lemma NoDup_occurrences `{EqDecision A} (l : list A) :
  (∀ x, (occurrences x l ≤ 1)%nat) → NoDup l.
Proof.
  induction l as [|y l IH]; intros Hocc; constructor.
  - intros Hy. apply occurrences_zero in Hy; [done|].
    specialize (Hocc y). rewrite occurrences_cons, decide_True in Hocc by done.
    lia.
  - apply IH. intros x. specialize (Hocc x).
    rewrite occurrences_cons in Hocc. lia.
Qed.

Lemma occurrences_le_1 `{EqDecision A} (l : list A) (x : A) :
  NoDup l → (occurrences x l ≤ 1)%nat.
Proof.
  intros Hnd. destruct (decide (x ∈ l)) as [Hx|Hx].
  - by rewrite occurrences_NoDup.
  - apply occurrences_zero in Hx. lia.
Qed.

Lemma NoDup_qa_join (t : list CleanedPost) : NoDup t → NoDup (qa_join t).
Proof.
  intros Hnd. apply NoDup_occurrences. intros [q a].
  rewrite occurrences_qa_join. case_decide; [|lia].
  pose proof (occurrences_le_1 t q Hnd).
  pose proof (occurrences_le_1 t a Hnd). nia.
Qed.

Lemma NoDup_fmap_inj {A B} (f : A → B) (l : list A) (x y : A) :
  NoDup (f <$> l) → x ∈ l → y ∈ l → f x = f y → x = y.
Proof.
  intros Hnd (i & Hi)%list_elem_of_lookup (j & Hj)%list_elem_of_lookup Heq.
  assert (i = j) as ->; [|congruence].
  apply (NoDup_lookup _ i j (f x) Hnd); rewrite list_lookup_fmap.
  - by rewrite Hi.
  - by rewrite Hj, Heq.
Qed.

Lemma qa_join_inj (t : list CleanedPost) (q q' a a' : CleanedPost) :
  NoDup (id <$> t) →
  (q, a) ∈ qa_join t → (q', a') ∈ qa_join t → id a = id a' →
  q = q' ∧ a = a'.
Proof.
  intros Hnd (Hq & Ha & _ & Hpar)%elem_of_qa_join
    (Hq' & Ha' & _ & Hpar')%elem_of_qa_join Hid.
  assert (a = a') as <- by eauto using NoDup_fmap_inj.
  split; [|done]. apply (NoDup_fmap_inj id t); [done..|congruence].
Qed.

Lemma at_most_one_key {A B} `{EqDecision B} (f : A → B) (l : list A) (k : B) :
  NoDup (f <$> l) → (length (filter (λ x, f x = k) l) ≤ 1)%nat.
Proof.
  intros Hnd. apply length_le_1.
  - by eapply NoDup_filter, NoDup_fmap_1.
  - intros x y [Hx ?]%list_elem_of_filter [Hy ?]%list_elem_of_filter.
    apply (NoDup_fmap_inj f l); congruence.
Qed.

Lemma NoDup_answer_id (t : list CleanedPost) :
  NoDup (id <$> t) → NoDup (answer_id <$> qa_df t).
Proof.
  intros Hnd. unfold qa_df. rewrite <- list_fmap_compose.
  apply NoDup_fmap_2_strong.
  - intros [q a] [q' a'] Hin Hin' Hid. cbn in Hid.
    by destruct (qa_join_inj t q q' a a') as [-> ->].
  - by eapply NoDup_qa_join, NoDup_fmap_1.
Qed.

Lemma source_docs_df (t : list CleanedPost) :
  source <$> docs_df t = answer_id <$> qa_df t.
Proof. unfold docs_df. by rewrite <- list_fmap_compose. Qed.

(** C1: question/answer assembly is an inner equi-join.  Every pair of a
    question row [q] (null [parent_id]) and a row [a] with
    [parent_id a = id q] gives exactly one joined row, that is one
    [QAPair (id a) (body q) (body a)]: once per way of picking the two rows
    in the table, hence exactly once when the rows of the table are
    pairwise distinct, and the QAPair itself occurs exactly once when the
    [id] values are pairwise distinct.  Nothing else is produced: an answer
    whose [parent_id] matches no question of the table is in no joined row,
    a question without answers is in no joined row, and a table without any
    matching pair gives no QAPair and no TrainingDocument. *)
Theorem qa_df_inner_equi_join (t : list CleanedPost) :
  (∀ q a, parent_id q = None → parent_id a = Some (id q) →
     occurrences (q, a) (qa_join t) = (occurrences q t * occurrences a t)%nat)
  ∧ (∀ q a, NoDup t → q ∈ t → a ∈ t →
       parent_id q = None → parent_id a = Some (id q) →
       occurrences (q, a) (qa_join t) = 1%nat)
  ∧ (∀ q a, NoDup (id <$> t) → q ∈ t → a ∈ t →
       parent_id q = None → parent_id a = Some (id q) →
       occurrences (mkQAPair (id a) (body q) (body a)) (qa_df t) = 1%nat)
  ∧ (∀ q a, (q, a) ∈ qa_join t
       ↔ q ∈ t ∧ a ∈ t ∧ parent_id q = None ∧ parent_id a = Some (id q))
  ∧ (∀ p, p ∈ qa_df t ↔
       ∃ q a, q ∈ t ∧ a ∈ t ∧ parent_id q = None
              ∧ parent_id a = Some (id q)
              ∧ p = mkQAPair (id a) (body q) (body a))
  ∧ (∀ a, (∀ q, q ∈ t → parent_id q = None → parent_id a ≠ Some (id q)) →
       ∀ q, (q, a) ∉ qa_join t)
  ∧ (∀ q, (∀ a, a ∈ t → parent_id a ≠ Some (id q)) →
       ∀ a, (q, a) ∉ qa_join t)
  ∧ length (qa_df t) = length (qa_join t)
  ∧ length (docs_df t) = length (qa_join t)
  ∧ ((∀ q a, q ∈ t → a ∈ t → parent_id q = None →
        parent_id a ≠ Some (id q)) →
     qa_df t = [] ∧ docs_df t = []).
Proof.
  split_and!.
  - intros q a Hq Ha. rewrite occurrences_qa_join. by rewrite decide_True.
  - intros q a Ht Hq Ha Hnull Hpar.
    rewrite occurrences_qa_join, decide_True by done.
    by rewrite !occurrences_NoDup.
  - intros q a Hids Hq Ha Hnull Hpar. apply occurrences_NoDup.
    + by eapply NoDup_fmap_1, NoDup_answer_id.
    + unfold qa_df. apply list_elem_of_fmap. exists (q, a).
      split; [done|]. by apply elem_of_qa_join.
  - apply elem_of_qa_join.
  - intros p. unfold qa_df. rewrite list_elem_of_fmap. split.
    + intros ([q a] & -> & (Hq & Ha & Hnull & Hpar)%elem_of_qa_join).
      by exists q, a.
    + intros (q & a & Hq & Ha & Hnull & Hpar & ->). exists (q, a).
      split; [done|]. by apply elem_of_qa_join.
  - intros a Hno q (Hq & _ & Hnull & Hpar)%elem_of_qa_join.
    by apply (Hno q).
  - intros q Hno a (_ & Ha & _ & Hpar)%elem_of_qa_join. by apply (Hno a).
  - unfold qa_df. by rewrite length_fmap.
  - apply length_docs_df.
  - intros Hno. unfold docs_df, qa_df. rewrite qa_join_nil; [done|].
    intros q a (Hq & Ha & Hnull & Hpar)%elem_of_qa_join.
    by apply (Hno q a).
Qed.

(** The join example of the specification: question 10 and answer 20 give
    the pair with [answer_id = 20] once; answer 21 points to a post that is
    not in the table and question 11 has no answer, and neither shows. *)
Example qa_df_example :
  qa_df [mkCleanedPost 10 "Q10" None; mkCleanedPost 20 "A20" (Some 10);
         mkCleanedPost 21 "A21" (Some 99); mkCleanedPost 11 "Q11" None]
  = [mkQAPair 20 "Q10" "A20"].
Proof. reflexivity. Qed.

(** ** Training documents *)

Lemma list_byte_of_string_append (s1 s2 : string) :
  list_byte_of_string (s1 +:+ s2)
  = list_byte_of_string s1 ++ list_byte_of_string s2.
Proof.
  unfold list_byte_of_string.
  induction s1 as [|c s1 IH]; [done|].
  change (String c s1 +:+ s2) with (String c (s1 +:+ s2)).
  cbn [list_ascii_of_string List.map app]. by rewrite IH.
Qed.

Lemma len_append (s1 s2 : string) : len (s1 +:+ s2) = len s1 + len s2.
Proof.
  unfold len. induction s1 as [|c s1 IH]; [done|].
  change (String c s1 +:+ s2) with (String c (s1 +:+ s2)).
  cbn [characters]. rewrite !Nat2Z.inj_add. lia.
Qed.

(** C3: row by row, the training document of a QAPair has the pair's
    [answer_id] as [source], and its [text] is the question, then the two
    bytes 0x0a 0x0a, then the answer, with nothing added or dropped. *)
Theorem docs_df_text (t : list CleanedPost) :
  length (docs_df t) = length (qa_df t)
  ∧ (∀ i p, qa_df t !! i = Some p →
       ∃ d, docs_df t !! i = Some d
            ∧ source d = answer_id p
            ∧ text d = question p +:+ separator +:+ answer p
            ∧ list_byte_of_string (text d)
              = list_byte_of_string (question p) ++ [x0a; x0a]
                ++ list_byte_of_string (answer p)
            ∧ len (text d) = len (question p) + 2 + len (answer p))
  ∧ (∀ i d, docs_df t !! i = Some d →
       ∃ p, qa_df t !! i = Some p
            ∧ source d = answer_id p
            ∧ text d = question p +:+ separator +:+ answer p).
Proof.
  unfold docs_df. split_and!.
  - by rewrite length_fmap.
  - intros i p Hp. rewrite list_lookup_fmap, Hp. eexists. split; [done|].
    cbn [source text]. split_and!; [done..| |].
    + by rewrite !list_byte_of_string_append.
    + rewrite !len_append. change (len separator) with 2. lia.
  - intros i d. rewrite list_lookup_fmap.
    destruct (qa_df t !! i) as [p|]; [|done]. intros [= <-]. eauto.
Qed.

(** The end-to-end scenario of the specification, for any HTML parser: the
    low-score answer 3 is dropped, and one document is made, keyed by the
    answer 2. *)
Example end_to_end (get_text : string → string) :
  docs_df (gardening_df get_text
    [mkPost 1 None 8 "<p>How to water roses?</p>";
     mkPost 2 (Some 1) 6 "<p>Water daily.</p>";
     mkPost 3 (Some 1) 2 "<p>Low score answer.</p>"])
  = [mkTrainingDocument 2
       (get_text "<p>How to water roses?</p>" +:+ separator
        +:+ get_text "<p>Water daily.</p>")].
Proof. reflexivity. Qed.

(** ** Distinct identifiers and distinct keys *)

(** C9: when the [id] values of the cleaned table are pairwise distinct, an
    answer row is joined with at most one question, so each answer gives at
    most one joined row and at most one QAPair, and the [source] keys of the
    training documents are pairwise distinct. *)
Theorem distinct_ids_distinct_sources (t : list CleanedPost) :
  NoDup (id <$> t) →
  (∀ a q q', (q, a) ∈ qa_join t → (q', a) ∈ qa_join t → q = q')
  ∧ (∀ a, (length (filter (λ qa, qa.2 = a) (qa_join t)) ≤ 1)%nat)
  ∧ (∀ k, (length (filter (λ p, answer_id p = k) (qa_df t)) ≤ 1)%nat)
  ∧ NoDup (answer_id <$> qa_df t)
  ∧ NoDup (source <$> docs_df t).
Proof.
  intros Hnd. split_and!.
  - intros a q q' Hq Hq'. by destruct (qa_join_inj t q q' a a).
  - intros a. apply length_le_1.
    + by eapply NoDup_filter, NoDup_qa_join, NoDup_fmap_1.
    + intros [q b] [q' b'] [Hb Hin]%list_elem_of_filter
        [Hb' Hin']%list_elem_of_filter. cbn in Hb, Hb'. subst b b'.
      by destruct (qa_join_inj t q q' a a) as [-> _].
  - intros k. by apply at_most_one_key, NoDup_answer_id.
  - by apply NoDup_answer_id.
  - rewrite source_docs_df. by apply NoDup_answer_id.
Qed.

Lemma distinct_ids_distinct_sources_roses :
  NoDup (id <$> roses) ∧ NoDup (source <$> docs_df roses).
Proof.
  assert (Hids : NoDup (id <$> roses)).
  { apply (bool_decide_unpack _). vm_compute. exact I. }
  split; [exact Hids|].
  apply (distinct_ids_distinct_sources roses Hids).
Defined.

(** Without distinct identifiers the keys can repeat: two rows with the
    [id] of one answer give two documents with one [source]. *)
Example duplicate_ids_duplicate_sources :
  source <$> docs_df [mkCleanedPost 1 "Q" None; mkCleanedPost 2 "A" (Some 1);
                      mkCleanedPost 2 "A'" (Some 1)]
  = [2; 2].
Proof. reflexivity. Qed.

(** ** Summarization *)

Section MapM.
Context {A B : Type} (f : A → result B).

Lemma mapM_nil : mapM f [] = Ok [].
Proof. reflexivity. Qed.

Lemma mapM_cons x l :
  mapM f (x :: l) = y ← f x; k ← mapM f l; mret (y :: k).
Proof. reflexivity. Qed.

Lemma mapM_Ok l k : mapM f l = Ok k ↔ Forall2 (λ x y, f x = Ok y) l k.
Proof.
  revert k. induction l as [|x l IH]; intros k.
  - rewrite mapM_nil. split.
    + intros [= <-]. constructor.
    + by intros ->%Forall2_nil_inv_l.
  - rewrite mapM_cons. split.
    + destruct (f x) as [y|e] eqn:Hx; [|done]. cbn.
      destruct (mapM f l) as [k'|e] eqn:Hl; [|done]. cbn.
      intros [= <-]. constructor; [done|]. by apply IH.
    + intros (y & k' & Hy & Hk' & ->)%Forall2_cons_inv_l.
      apply IH in Hk'. by rewrite Hy, Hk'.
Qed.

Lemma mapM_Raise l x e :
  x ∈ l → f x = Raise e → ∃ e', mapM f l = Raise e'.
Proof.
  intros Hx Hfx. induction l as [|y l IH]; [by apply elem_of_nil in Hx|].
  rewrite mapM_cons. destruct (f y) as [b|e1] eqn:Hy; [|by exists e1].
  apply elem_of_cons in Hx as [->|Hx]; [congruence|].
  destruct (IH Hx) as [e' ->]. by exists e'.
Qed.

End MapM.

Section SummarizeFacts.
Variable summarizer : string → result (list (gmap string string)).

Lemma summarize_txt_short text :
  len text <= 5000 → summarize_txt summarizer text = Ok text.
Proof.
  intros Hlen. unfold summarize_txt. rewrite bool_decide_eq_false_2; [done|lia].
Qed.

Lemma summarize_txt_long text :
  len text > 5000 →
  summarize_txt summarizer text
  = (out ← summarizer text; first ← getitem_0 out;
     getitem "summary_text" first).
Proof.
  intros Hlen. unfold summarize_txt. by rewrite bool_decide_eq_true_2.
Qed.

End SummarizeFacts.

(** C4: [summarize_txt] returns its input unchanged when the text has at
    most 5000 characters.  On a longer text it returns what the model call
    gives: the [summary_text] of the model's first output when the model
    answers, in place of the text. *)
Theorem summarize_txt_threshold
    (summarizer : string → result (list (gmap string string)))
    (text : string) :
  (len text <= 5000 → summarize_txt summarizer text = Ok text)
  ∧ (len text > 5000 →
       summarize_txt summarizer text
       = (out ← summarizer text; first ← getitem_0 out;
          getitem "summary_text" first))
  ∧ (len text > 5000 →
       ∀ first rest summary,
         summarizer text = Ok (first :: rest) →
         first !! "summary_text" = Some summary →
         summarize_txt summarizer text = Ok summary).
Proof.
  split_and!.
  - apply summarize_txt_short.
  - apply summarize_txt_long.
  - intros Hlen first rest summary Hout Hkey.
    rewrite summarize_txt_long, Hout by done. cbn.
    unfold getitem. by rewrite Hkey.
Qed.

Example summarize_txt_at_threshold :
  summarize_txt canned_summarizer (text_of_length 5000)
  = Ok (text_of_length 5000)
  ∧ summarize_txt canned_summarizer (text_of_length 5001) = Ok "A summary.".
Proof. split; vm_compute; reflexivity. Qed.

(** Characters, not bytes: a text of 2000 characters that takes 6000 bytes
    is returned as it is, and the model is not called on it. *)
Example summarize_txt_counts_characters :
  len (repeated 2000 "花") = 2000
  ∧ summarize_txt failing_summarizer (repeated 2000 "花")
    = Ok (repeated 2000 "花")
  ∧ summarize failing_summarizer [[repeated 2000 "花"; "Short answer."]]
    = Ok [[repeated 2000 "花"; "Short answer."]].
Proof. split_and!; vm_compute; reflexivity. Qed.

(** C7, as stated, fails: the model raises on the third document of [batch],
    and the run ends with that exception.  No output is made, neither for
    that document nor for the others, so the output that the failure policy
    asks for is not what [summarize] returns. *)
Lemma summarize_failure_aborts :
  summarize_txt limited_summarizer (text_of_length 6001) = Raise ModelError
  ∧ summarize limited_summarizer batch = Raise ModelError
  ∧ falls_back limited_summarizer batch
      [["Short question."; "A summary."; text_of_length 6001;
        "Short answer."]]
  ∧ ¬ ∃ out, summarize limited_summarizer batch = Ok out
             ∧ falls_back limited_summarizer batch out.
Proof.
  assert (Hrun : summarize limited_summarizer batch = Raise ModelError)
    by (vm_compute; reflexivity).
  split_and!.
  - vm_compute; reflexivity.
  - exact Hrun.
  - repeat constructor; vm_compute; reflexivity.
  - intros (out & Hout & _). rewrite Hrun in Hout. discriminate.
Qed.

(** C7, amended: [summarize] handles no failure.  It gives an output exactly
    when [summarize_txt] succeeds on every document, and then every document
    is replaced by its own result; when [summarize_txt] raises on some
    document the run ends with an exception and gives no output.  A run over
    documents of at most 5000 characters never calls the model and returns
    its input. *)
Theorem summarize_failure_propagates
    (summarizer : string → result (list (gmap string string)))
    (iterator : list (list string)) :
  (∀ out, summarize summarizer iterator = Ok out ↔
     Forall2 (Forall2 (λ text o, summarize_txt summarizer text = Ok o))
       iterator out)
  ∧ (∀ serie text e, serie ∈ iterator → text ∈ serie →
       summarize_txt summarizer text = Raise e →
       ∃ e', summarize summarizer iterator = Raise e')
  ∧ (Forall (Forall (λ text, len text <= 5000)) iterator →
     summarize summarizer iterator = Ok iterator).
Proof.
  unfold summarize, Series_apply. split_and!.
  - intros out. rewrite mapM_Ok. split.
    + intros H. eapply Forall2_impl; [exact H|].
      intros serie o. by rewrite mapM_Ok.
    + intros H. eapply Forall2_impl; [exact H|].
      intros serie o. by rewrite mapM_Ok.
  - intros serie text e Hserie Htext Hraise.
    destruct (mapM_Raise (summarize_txt summarizer) serie text e)
      as [e' He']; [done..|].
    by apply (mapM_Raise _ iterator serie e').
  - intros Hshort. apply mapM_Ok.
    induction Hshort as [|serie iterator Hserie _ IH]; constructor; [|done].
    apply mapM_Ok.
    induction Hserie as [|text serie Htext _ IH']; constructor; [|done].
    by apply summarize_txt_short.
Qed.

(** * Further properties of the pipeline *)

(** ** Filter & Clean, row by row *)

Section FilterCleanRows.
Variable get_text : string → string.

Lemma filtered_app (r1 r2 : list Post) :
  filtered (r1 ++ r2) = filtered r1 ++ filtered r2.
Proof. unfold filtered. by rewrite !filter_app. Qed.

Lemma filtered_sublist (raw : list Post) : filtered raw `sublist_of` raw.
Proof.
  unfold filtered. etrans; apply sublist_filter; apply _.
Qed.

Lemma filtered_Permutation (raw raw' : list Post) :
  raw ≡ₚ raw' → filtered raw ≡ₚ filtered raw'.
Proof. unfold filtered. by intros ->. Qed.

Lemma filtered_comm (raw : list Post) :
  filtered raw
  = filter (λ r, _Score r >= 5) (filter (λ r, len (_Body r) <= 1000) raw).
Proof.
  unfold filtered. rewrite !list_filter_filter.
  apply list_filter_iff. tauto.
Qed.

Lemma gardening_df_ids (raw : list Post) :
  id <$> gardening_df get_text raw = _Id <$> filtered raw.
Proof. rewrite gardening_df_filtered. by rewrite <- list_fmap_compose. Qed.

Lemma NoDup_gardening_df_ids (raw : list Post) :
  NoDup (_Id <$> raw) → NoDup (id <$> gardening_df get_text raw).
Proof.
  intros Hnd. rewrite gardening_df_ids.
  eapply sublist_NoDup; [exact Hnd|].
  apply fmap_sublist, filtered_sublist.
Qed.

End FilterCleanRows.

(** X1: identifiers stay unique through the pipeline.  If the [_Id]s of the
    posts of the dump are pairwise distinct, so are the [id]s of the cleaned
    table, and so are the [source] keys of the documents made from it. *)
Theorem unique_ids_preserved (get_text : string → string) (raw : list Post) :
  NoDup (_Id <$> raw) →
  NoDup (id <$> gardening_df get_text raw)
  ∧ NoDup (source <$> docs_df (gardening_df get_text raw)).
Proof.
  intros Hnd. apply (NoDup_gardening_df_ids get_text) in Hnd.
  split; [done|]. rewrite source_docs_df. by apply NoDup_answer_id.
Qed.

Lemma unique_ids_preserved_dump :
  NoDup (_Id <$> [mkPost 1 None 8 "<p>How to water roses?</p>";
                  mkPost 2 (Some 1) 6 "<p>Water daily.</p>";
                  mkPost 3 (Some 1) 2 "<p>Low score answer.</p>"])
  ∧ NoDup (source <$> docs_df (gardening_df (λ x, x)
       [mkPost 1 None 8 "<p>How to water roses?</p>";
        mkPost 2 (Some 1) 6 "<p>Water daily.</p>";
        mkPost 3 (Some 1) 2 "<p>Low score answer.</p>"])).
Proof.
  assert (Hids : NoDup (_Id <$> [mkPost 1 None 8 "<p>How to water roses?</p>";
                  mkPost 2 (Some 1) 6 "<p>Water daily.</p>";
                  mkPost 3 (Some 1) 2 "<p>Low score answer.</p>"])).
  { apply (bool_decide_unpack _). vm_compute. exact I. }
  split; [exact Hids|].
  apply (unique_ids_preserved (λ x, x) _ Hids).
Defined.

(** X2: Filter & Clean treats every row on its own.  The cleaned table of a
    dump cut in two parts is the cleaned table of the first part followed by
    that of the second; a dump read in another order gives the same rows in
    another order; the two filters can be swapped; and the [id] column of
    the result is a sub-sequence of the [_Id] column of the dump, so no row
    is added or duplicated. *)
Theorem filter_clean_row_by_row (get_text : string → string) :
  (∀ r1 r2, gardening_df get_text (r1 ++ r2)
            = gardening_df get_text r1 ++ gardening_df get_text r2)
  ∧ (∀ raw raw', raw ≡ₚ raw' →
       gardening_df get_text raw ≡ₚ gardening_df get_text raw')
  ∧ (∀ raw, filtered raw
       = filter (λ r, _Score r >= 5)
           (filter (λ r, len (_Body r) <= 1000) raw))
  ∧ (∀ raw, id <$> gardening_df get_text raw `sublist_of` _Id <$> raw)
  ∧ (∀ raw, (length (gardening_df get_text raw) ≤ length raw)%nat).
Proof.
  split_and!.
  - intros r1 r2. by rewrite !gardening_df_filtered, filtered_app, fmap_app.
  - intros raw raw' Hperm. rewrite !gardening_df_filtered.
    by apply fmap_Permutation, filtered_Permutation.
  - apply filtered_comm.
  - intros raw. rewrite gardening_df_ids.
    apply fmap_sublist, filtered_sublist.
  - intros raw. rewrite gardening_df_filtered, length_fmap.
    apply sublist_length, filtered_sublist.
Qed.

(** ** The join, as a multiset and by the numbers *)

Section JoinRows.
Context {A B : Type}.
Implicit Types (l : list A) (r : list B) (on : A → B → option bool).

Lemma bind_pointwise_Permutation {C} (f g : A → list C) l :
  (∀ x, f x ≡ₚ g x) → l ≫= f ≡ₚ l ≫= g.
Proof.
  intros Hfg. induction l as [|x l IH]; [done|].
  cbn. by rewrite (Hfg x), IH.
Qed.

Lemma join_Permutation l l' r r' on :
  l ≡ₚ l' → r ≡ₚ r' → join l r on ≡ₚ join l' r' on.
Proof.
  intros Hl Hr. unfold join. rewrite Hl.
  apply bind_pointwise_Permutation. intros a. unfold matches. by rewrite Hr.
Qed.

Lemma length_matches on a r :
  length (matches on a r) = length (filter (λ b, on a b = Some true) r).
Proof.
  induction r as [|b r IH]; [done|].
  change (matches on a (b :: r))
    with ((if on a b is Some true then [(a, b)] else []) ++ matches on a r).
  rewrite length_app, IH, filter_cons.
  destruct (on a b) as [[]|]; by case_decide.
Qed.

Lemma length_join l r on :
  length (join l r on)
  = sum_list ((λ a, length (filter (λ b, on a b = Some true) r)) <$> l).
Proof.
  induction l as [|a l IH]; [done|].
  by rewrite join_cons, length_app, length_matches, IH.
Qed.

Lemma matches_fst on a r : Forall (λ ab, ab.1 = a) (matches on a r).
Proof.
  apply Forall_forall. intros [a' b] Hin.
  by apply elem_of_matches in Hin as [-> _].
Qed.

Context `{EqDecision A}.

Lemma filter_fst_matches on a r (q : A) :
  filter (λ ab, ab.1 = q) (matches on a r)
  = if decide (a = q) then matches on a r else [].
Proof.
  pose proof (matches_fst on a r) as Hall.
  induction Hall as [|[a' b] k Hab _ IH]; [by case_decide|].
  cbn in Hab. subst a'. rewrite filter_cons, IH. cbn.
  by destruct (decide (a = q)).
Qed.

(** A left row that occurs [n] times is joined [n] times with each of the
    right rows it matches. *)
Lemma length_join_fst l r on (q : A) :
  length (filter (λ ab, ab.1 = q) (join l r on))
  = (occurrences q l * length (filter (λ b, on q b = Some true) r))%nat.
Proof.
  induction l as [|a l IH]; [done|].
  rewrite join_cons, filter_app, length_app, IH, filter_fst_matches,
    occurrences_cons.
  destruct (decide (a = q)) as [->|Hne].
  - rewrite decide_True by done. rewrite length_matches. lia.
  - rewrite decide_False by congruence. cbn. lia.
Qed.

End JoinRows.

Lemma qa_join_Permutation (t t' : list CleanedPost) :
  t ≡ₚ t' → qa_join t ≡ₚ qa_join t'.
Proof.
  intros Ht. unfold qa_join. apply join_Permutation; [|done]. by rewrite Ht.
Qed.

Lemma filter_answers_of (t : list CleanedPost) (q : CleanedPost) :
  filter (λ b, sql_eq (Some (id q)) (parent_id b) = Some true) t
  = filter (λ b, parent_id b = Some (id q)) t.
Proof. apply list_filter_iff. intros b. apply sql_eq_true. Qed.

(** X3: the documents do not depend on the order of the rows of the cleaned
    table: the same rows in another order give the same QAPairs and the same
    documents, in another order. *)
Theorem qa_df_Permutation (t t' : list CleanedPost) :
  t ≡ₚ t' → qa_df t ≡ₚ qa_df t' ∧ docs_df t ≡ₚ docs_df t'.
Proof.
  intros Ht. apply qa_join_Permutation in Ht.
  unfold docs_df, qa_df. by rewrite Ht.
Qed.

Lemma qa_df_Permutation_roses :
  roses ≡ₚ reverse roses ∧ docs_df roses ≡ₚ docs_df (reverse roses).
Proof.
  assert (Hperm : roses ≡ₚ reverse roses).
  { apply (bool_decide_unpack _). vm_compute. exact I. }
  split; [exact Hperm|].
  apply (qa_df_Permutation roses (reverse roses) Hperm).
Defined.

(** X4: the number of documents.  A question row is joined once with every
    row whose [parent_id] is its [id], so a question that occurs once and
    has [n] answers in the table gives [n] joined rows; and the documents
    are as many as the answers of all question rows together. *)
Theorem one_document_per_answer (t : list CleanedPost) :
  (∀ q, parent_id q = None →
     length (filter (λ qa, qa.1 = q) (qa_join t))
     = (occurrences q t
        * length (filter (λ b, parent_id b = Some (id q)) t))%nat)
  ∧ length (docs_df t)
    = sum_list ((λ q, length (filter (λ b, parent_id b = Some (id q)) t))
                  <$> filter (λ a, parent_id a = None) t).
Proof.
  split.
  - intros q Hq. unfold qa_join.
    rewrite length_join_fst, filter_answers_of, occurrences_filter.
    by rewrite decide_True.
  - rewrite length_docs_df. unfold qa_join. rewrite length_join.
    f_equal. apply list_fmap_ext. intros _ q _. by rewrite filter_answers_of.
Qed.

(** ** Which rows become documents *)

Lemma answers_a_question_iff (t : list CleanedPost) (b : CleanedPost) :
  answers_a_question t b
  ↔ ∃ q, q ∈ t ∧ parent_id q = None ∧ parent_id b = Some (id q).
Proof. unfold answers_a_question. by rewrite Exists_exists. Qed.

Lemma elem_of_qa_join_snd (t : list CleanedPost) (b : CleanedPost) :
  b ∈ (qa_join t).*2 ↔ b ∈ t ∧ answers_a_question t b.
Proof.
  rewrite list_elem_of_fmap, answers_a_question_iff. split.
  - intros ([q b'] & -> & (Hq & Hb & Hnull & Hpar)%elem_of_qa_join).
    split; [done|]. by exists q.
  - intros (Hb & q & Hq & Hnull & Hpar). exists (q, b).
    split; [done|]. by apply elem_of_qa_join.
Qed.

Lemma NoDup_qa_join_snd (t : list CleanedPost) :
  NoDup (id <$> t) → NoDup ((qa_join t).*2).
Proof.
  intros Hnd. apply NoDup_fmap_2_strong.
  - intros [q a] [q' a'] Hin Hin' Heq. cbn in Heq. subst a'.
    by destruct (qa_join_inj t q q' a a) as [-> _].
  - by eapply NoDup_qa_join, NoDup_fmap_1.
Qed.

Lemma length_filter_impl {A} (P Q : A → Prop)
    `{!∀ x, Decision (P x), !∀ x, Decision (Q x)} (l : list A) :
  (∀ x, P x → Q x) → (length (filter P l) ≤ length (filter Q l))%nat.
Proof.
  intros HPQ. induction l as [|x l IH]; [done|].
  rewrite !filter_cons.
  destruct (decide (P x)) as [HP|HP], (decide (Q x)) as [HQ|HQ]; cbn;
    [lia|by destruct HQ; apply HPQ|lia|lia].
Qed.

(** X5: with pairwise distinct [id]s the documents are, one for one, the
    rows of the table that point to a question of the table: the answer
    sides of the joined rows are those rows, each once, so there are as many
    documents as such rows and never more than rows with a [parent_id]. *)
Theorem documents_are_answers (t : list CleanedPost) :
  NoDup (id <$> t) →
  (qa_join t).*2 ≡ₚ filter (answers_a_question t) t
  ∧ length (docs_df t) = length (filter (answers_a_question t) t)
  ∧ (length (docs_df t) ≤ length (filter (λ b, parent_id b ≠ None) t))%nat.
Proof.
  intros Hnd.
  assert ((qa_join t).*2 ≡ₚ filter (answers_a_question t) t) as Hperm.
  { apply NoDup_Permutation.
    - by apply NoDup_qa_join_snd.
    - by eapply NoDup_filter, NoDup_fmap_1.
    - intros b. rewrite elem_of_qa_join_snd, list_elem_of_filter. tauto. }
  assert (length (docs_df t) = length (filter (answers_a_question t) t))
    as Hlen.
  { by rewrite length_docs_df, <- Hperm, length_fmap. }
  split_and!; [done..|]. rewrite Hlen. apply length_filter_impl.
  intros b (q & _ & _ & Hpar)%answers_a_question_iff. congruence.
Qed.

Lemma documents_are_answers_roses :
  NoDup (id <$> roses)
  ∧ length (docs_df roses) = length (filter (answers_a_question roses) roses).
Proof.
  assert (Hids : NoDup (id <$> roses)).
  { apply (bool_decide_unpack _). vm_compute. exact I. }
  split; [exact Hids|].
  apply (documents_are_answers roses Hids).
Defined.

(** X6: the two sides of the join never mix.  In a joined row the question
    side has no [parent_id] and the answer side has one, so no row is joined
    with itself, a question is never the answer of a document, and an answer
    is never the question of one.  With pairwise distinct [id]s a row that
    points to an answer, not to a question, gives no document. *)
Theorem question_and_answer_roles (t : list CleanedPost) :
  (∀ q a, (q, a) ∈ qa_join t →
     q ≠ a ∧ parent_id q = None ∧ parent_id a ≠ None
     ∧ (∀ x, (x, q) ∉ qa_join t) ∧ (∀ x, (a, x) ∉ qa_join t))
  ∧ (∀ b c, NoDup (id <$> t) → b ∈ t → parent_id b ≠ None →
       parent_id c = Some (id b) → ∀ x, (x, c) ∉ qa_join t).
Proof.
  split.
  - intros q a (Hq & Ha & Hnull & Hpar)%elem_of_qa_join. split_and!.
    + intros ->. congruence.
    + done.
    + congruence.
    + intros x (_ & _ & _ & Hpar')%elem_of_qa_join. congruence.
    + intros x (_ & _ & Hnull' & _)%elem_of_qa_join. congruence.
  - intros b c Hnd Hb Hans Hpar x (Hx & _ & Hnull & Hpar')%elem_of_qa_join.
    assert (x = b) as ->; [|done].
    apply (NoDup_fmap_inj id t); [done..|congruence].
Qed.

(** An answer to an answer is dropped: row 3 points to row 2, which is not a
    question. *)
Example answer_to_an_answer :
  docs_df [mkCleanedPost 1 "Q" None; mkCleanedPost 2 "A" (Some 1);
           mkCleanedPost 3 "Re: A" (Some 2)]
  = [mkTrainingDocument 2 ("Q" +:+ separator +:+ "A")].
Proof. reflexivity. Qed.

(** ** The summarization UDF, series by series *)

Section MapMFacts.
Context {A B : Type} (f : A → result B).

Lemma mapM_app l1 l2 :
  mapM f (l1 ++ l2) = k1 ← mapM f l1; k2 ← mapM f l2; mret (k1 ++ k2).
Proof.
  induction l1 as [|x l1 IH]; cbn [app].
  - rewrite mapM_nil. cbn. by destruct (mapM f l2).
  - rewrite !mapM_cons, IH. destruct (f x) as [y|e]; [|done]. cbn.
    destruct (mapM f l1) as [k1|e]; [|done]. cbn.
    by destruct (mapM f l2).
Qed.

Lemma mapM_all_Ok l :
  Forall (λ x, ∃ y, f x = Ok y) l → ∃ k, mapM f l = Ok k.
Proof.
  induction 1 as [|x l [y Hy] _ [k Hk]]; [by exists []|].
  exists (y :: k). by rewrite mapM_cons, Hy, Hk.
Qed.

(** The exception of a run is that of the first row that raises. *)
Lemma mapM_first_Raise l1 x l2 e :
  Forall (λ x, ∃ y, f x = Ok y) l1 → f x = Raise e →
  mapM f (l1 ++ x :: l2) = Raise e.
Proof.
  intros [k1 Hk1]%mapM_all_Ok Hx.
  by rewrite mapM_app, Hk1, mapM_cons, Hx.
Qed.

Lemma mapM_ext_Forall (g : A → result B) l :
  Forall (λ x, f x = g x) l → mapM f l = mapM g l.
Proof.
  induction 1 as [|x l Hx _ IH]; [done|]. by rewrite !mapM_cons, Hx, IH.
Qed.

End MapMFacts.

(** X7: a run of [summarize] that ends well keeps the shape of its input:
    as many series, each with as many rows, and every row of at most 5000
    characters is at its place, unchanged. *)
Theorem summarize_keeps_shape
    (summarizer : string → result (list (gmap string string)))
    (iterator out : list (list string)) :
  summarize summarizer iterator = Ok out →
  length out = length iterator
  ∧ ∀ i serie, iterator !! i = Some serie →
      ∃ o, out !! i = Some o ∧ length o = length serie
           ∧ ∀ j text, serie !! j = Some text → len text <= 5000 →
                       o !! j = Some text.
Proof.
  unfold summarize, Series_apply. intros Hout%mapM_Ok. split.
  - symmetry. by eapply Forall2_length.
  - intros i serie Hserie.
    destruct (Forall2_lookup_l _ _ _ _ _ Hout Hserie) as (o & Ho & Hrows).
    apply mapM_Ok in Hrows. exists o. split_and!; [done| |].
    + symmetry. by eapply Forall2_length.
    + intros j text Htext Hlen.
      destruct (Forall2_lookup_l _ _ _ _ _ Hrows Htext) as (o' & Ho' & Hrow).
      rewrite summarize_txt_short in Hrow by done. congruence.
Qed.

Lemma summarize_keeps_shape_canned :
  summarize canned_summarizer batch
  = Ok [["Short question."; "A summary."; "A summary."; "Short answer."]]
  ∧ length [["Short question."; "A summary."; "A summary."; "Short answer."]]
    = length batch.
Proof.
  assert (Hrun : summarize canned_summarizer batch
    = Ok [["Short question."; "A summary."; "A summary."; "Short answer."]])
    by (vm_compute; reflexivity).
  split; [exact Hrun|].
  exact (proj1 (summarize_keeps_shape canned_summarizer batch _ Hrun)).
Defined.

(** X8: the outcome of [summarize] does not depend on how the documents are
    cut into series.  Put end to end, its outputs are what one pass over all
    the documents in order gives, and it raises exactly when that pass
    raises, with the same exception. *)
Theorem summarize_batching
    (summarizer : string → result (list (gmap string string)))
    (iterator : list (list string)) :
  Series_apply (summarize_txt summarizer) (concat iterator)
  = match summarize summarizer iterator with
    | Ok out => Ok (concat out)
    | Raise e => Raise e
    end.
Proof.
  unfold summarize, Series_apply.
  induction iterator as [|serie iterator IH]; [done|].
  cbn [concat]. rewrite mapM_app, mapM_cons, IH.
  destruct (mapM (summarize_txt summarizer) serie) as [o|e]; [|done]. cbn.
  by destruct (mapM _ iterator).
Qed.

(** X9: what [summarize_txt] does with the answer of the model on a text of
    more than 5000 characters.  An exception of the model goes through; an
    empty list of outputs raises [IndexError]; a first output without the
    key [summary_text] raises [KeyError]; and a summary is returned exactly
    when the first output has one under that key, whatever the other outputs
    and keys are. *)
Theorem summarize_txt_outcomes
    (summarizer : string → result (list (gmap string string)))
    (text : string) :
  len text > 5000 →
  (∀ e, summarizer text = Raise e → summarize_txt summarizer text = Raise e)
  ∧ (summarizer text = Ok [] →
     summarize_txt summarizer text = Raise IndexError)
  ∧ (∀ first rest, summarizer text = Ok (first :: rest) →
       first !! "summary_text" = None →
       summarize_txt summarizer text = Raise KeyError)
  ∧ (∀ s, summarize_txt summarizer text = Ok s ↔
       ∃ first rest, summarizer text = Ok (first :: rest)
                     ∧ first !! "summary_text" = Some s).
Proof.
  intros Hlen. rewrite summarize_txt_long by done. unfold getitem.
  split_and!.
  - by intros e ->.
  - by intros ->.
  - intros first rest -> Hkey. cbn. by rewrite Hkey.
  - intros s. split.
    + destruct (summarizer text) as [[|first rest]|e]; cbn; [done| |done].
      destruct (first !! "summary_text") as [v|] eqn:Hkey; [|done].
      intros [= ->]. by exists first, rest.
    + intros (first & rest & -> & Hkey). cbn. by rewrite Hkey.
Qed.

Lemma summarize_txt_outcomes_canned :
  len (text_of_length 5001) > 5000
  ∧ (∀ s, summarize_txt canned_summarizer (text_of_length 5001) = Ok s ↔
       ∃ first rest,
         canned_summarizer (text_of_length 5001) = Ok (first :: rest)
         ∧ first !! "summary_text" = Some s).
Proof.
  assert (Hlen : len (text_of_length 5001) > 5000) by (vm_compute; reflexivity).
  split; [exact Hlen|].
  apply (summarize_txt_outcomes canned_summarizer (text_of_length 5001) Hlen).
Defined.

(** X10: the exception of a run is that of the first document that raises.
    When every document before [text], in the series before and in its own
    series, is summarized without an exception and [summarize_txt] raises
    [e] on [text], the run raises [e], whatever comes after. *)
Theorem summarize_first_exception
    (summarizer : string → result (list (gmap string string)))
    (before after : list (list string)) (serie1 serie2 : list string)
    (text : string) (e : exn) :
  Forall (Forall (λ x, ∃ o, summarize_txt summarizer x = Ok o)) before →
  Forall (λ x, ∃ o, summarize_txt summarizer x = Ok o) serie1 →
  summarize_txt summarizer text = Raise e →
  summarize summarizer (before ++ (serie1 ++ text :: serie2) :: after)
  = Raise e.
Proof.
  intros Hbefore Hserie1 Htext. unfold summarize, Series_apply.
  apply mapM_first_Raise.
  - eapply Forall_impl; [exact Hbefore|]. intros serie. apply mapM_all_Ok.
  - by apply mapM_first_Raise.
Qed.

Lemma summarize_first_exception_batch :
  summarize_txt limited_summarizer (text_of_length 6001) = Raise ModelError
  ∧ summarize limited_summarizer
      ([] ++ (["Short question."; text_of_length 5001]
              ++ text_of_length 6001 :: ["Short answer."]) :: [])
    = Raise ModelError.
Proof.
  assert (Htext : summarize_txt limited_summarizer (text_of_length 6001)
                  = Raise ModelError) by (vm_compute; reflexivity).
  split; [exact Htext|].
  apply (summarize_first_exception limited_summarizer [] []
           ["Short question."; text_of_length 5001] ["Short answer."]
           (text_of_length 6001) ModelError).
  - constructor.
  - repeat constructor.
    + exists "Short question.". vm_compute. reflexivity.
    + exists "A summary.". vm_compute. reflexivity.
  - exact Htext.
Defined.

(** X11: the model is called on the texts of more than 5000 characters and
    on no other.  Two models that agree on the long documents of a run give
    the same run, outputs and exceptions alike, however they differ
    elsewhere. *)
Theorem summarize_long_texts_only
    (summarizer1 summarizer2 : string → result (list (gmap string string)))
    (iterator : list (list string)) :
  Forall (Forall (λ text, len text > 5000 →
                          summarizer1 text = summarizer2 text)) iterator →
  summarize summarizer1 iterator = summarize summarizer2 iterator.
Proof.
  intros Hagree. unfold summarize, Series_apply. apply mapM_ext_Forall.
  eapply Forall_impl; [exact Hagree|]. intros serie Hserie.
  apply mapM_ext_Forall. eapply Forall_impl; [exact Hserie|].
  intros text Htext. unfold summarize_txt. case_bool_decide; [|done].
  by rewrite Htext.
Qed.

Lemma summarize_long_texts_only_short_run :
  summarize failing_summarizer [["Short question."; "Short answer."]]
  = summarize canned_summarizer [["Short question."; "Short answer."]].
Proof.
  apply (summarize_long_texts_only failing_summarizer canned_summarizer).
  repeat constructor; intros Hlen; vm_compute in Hlen; discriminate.
Defined.

(** ** The tables of the notebook *)

Lemma assemble_Some (metastore metastore' : gmap string table) :
  assemble metastore = Some metastore'
  ↔ ∃ t, spark_table "gardening_dataset" metastore = Some (CleanedPosts t)
         ∧ metastore' = saveAsTable "gardening_training_dataset"
                          (TrainingDocuments (docs_df t)) metastore.
Proof.
  unfold assemble. split.
  - destruct (spark_table _ metastore) as [[t|d]|]; [|done..].
    intros [= <-]. by exists t.
  - intros (t & -> & ->). done.
Qed.

(** X12: stage 4 on its own.  It fails when the metastore has no cleaned
    table under [gardening_dataset].  When there is one, it saves the
    documents of that table under [gardening_training_dataset] and changes no
    other table, the cleaned table included; run again, it changes
    nothing. *)
Theorem assemble_tables (metastore : gmap string table) :
  (spark_table "gardening_dataset" metastore = None →
   assemble metastore = None)
  ∧ (∀ t, spark_table "gardening_dataset" metastore = Some (CleanedPosts t) →
       ∃ metastore', assemble metastore = Some metastore'
         ∧ spark_table "gardening_training_dataset" metastore'
           = Some (TrainingDocuments (docs_df t))
         ∧ (∀ name, name ≠ "gardening_training_dataset" →
              spark_table name metastore' = spark_table name metastore)
         ∧ assemble metastore' = Some metastore').
Proof.
  split.
  - intros Hnone. unfold assemble. by rewrite Hnone.
  - intros t Ht. eexists. split; [apply assemble_Some; by exists t|].
    unfold saveAsTable, spark_table in *. split_and!.
    + by rewrite lookup_insert_eq.
    + intros name Hname. by rewrite lookup_insert_ne.
    + apply assemble_Some. exists t. unfold saveAsTable, spark_table.
      rewrite lookup_insert_ne by done. split; [done|].
      by rewrite insert_insert_eq.
Qed.

(** With a parser that returns on every body: stage 4 finds the table that
    stage 3 has just saved, the two tables hold the cleaned posts and the
    documents of this dump whatever they held before, every other table is
    as it was, and a second run changes nothing. *)
Lemma notebook_after (get_text : string → string) (raw : list Post)
    (before : gmap string table) :
  ∃ after, notebook get_text raw before = Some after
    ∧ spark_table "gardening_dataset" after
      = Some (CleanedPosts (gardening_df get_text raw))
    ∧ spark_table "gardening_training_dataset" after
      = Some (TrainingDocuments (docs_df (gardening_df get_text raw)))
    ∧ (∀ name, name ≠ "gardening_dataset" →
         name ≠ "gardening_training_dataset" →
         spark_table name after = spark_table name before)
    ∧ notebook get_text raw after = Some after.
Proof.
  unfold notebook. rewrite assemble_filter_and_clean. eexists.
  split; [done|]. unfold filter_and_clean, saveAsTable, spark_table.
  split_and!.
  - rewrite lookup_insert_ne by done. by rewrite lookup_insert_eq.
  - by rewrite lookup_insert_eq.
  - intros name Hname1 Hname2. by rewrite !lookup_insert_ne.
  - unfold assemble, spark_table, saveAsTable.
    rewrite lookup_insert_eq. f_equal.
    apply map_eq. intros name.
    destruct (decide (name = "gardening_training_dataset")) as [->|Hne2].
    { by rewrite !lookup_insert_eq. }
    rewrite (lookup_insert_ne _ "gardening_training_dataset") by done.
    rewrite (lookup_insert_ne _ "gardening_training_dataset" name) by done.
    destruct (decide (name = "gardening_dataset")) as [->|Hne1].
    { by rewrite !lookup_insert_eq. }
    by rewrite !lookup_insert_ne.
Qed.

(** ** From the dump to the documents *)

Lemma elem_of_gardening_df (get_text : string → string) (raw : list Post)
    (row : CleanedPost) :
  row ∈ gardening_df get_text raw ↔
  ∃ p, p ∈ raw ∧ _Score p >= 5 ∧ len (_Body p) <= 1000
       ∧ row = mkCleanedPost (_Id p) (get_text (_Body p)) (_ParentId p).
Proof.
  rewrite gardening_df_filtered, list_elem_of_fmap.
  setoid_rewrite elem_of_filtered. split.
  - intros (p & -> & Hp & Hscore & Hlen). by exists p.
  - intros (p & Hp & Hscore & Hlen & ->). by exists p.
Qed.

Lemma elem_of_docs_df (t : list CleanedPost) (d : TrainingDocument) :
  d ∈ docs_df t ↔
  ∃ q a, q ∈ t ∧ a ∈ t ∧ parent_id q = None ∧ parent_id a = Some (id q)
         ∧ d = mkTrainingDocument (id a) (body q +:+ separator +:+ body a).
Proof.
  unfold docs_df, qa_df. rewrite <- list_fmap_compose, list_elem_of_fmap.
  split.
  - intros ([q a] & -> & (Hq & Ha & Hnull & Hpar)%elem_of_qa_join).
    by exists q, a.
  - intros (q & a & Hq & Ha & Hnull & Hpar & ->). exists (q, a).
    split; [done|]. by apply elem_of_qa_join.
Qed.

(** X14: the documents in terms of the posts of the dump.  A document is
    made exactly for a question post and an answer post of the dump that
    both have a score of at least 5 and a raw body of at most 1000
    characters; it is keyed by the answer and holds the two parsed bodies
    around the separator.  So a good answer to a question that the filter
    drops gives no document. *)
Theorem documents_of_the_dump (get_text : string → string) (raw : list Post) :
  (∀ d, d ∈ docs_df (gardening_df get_text raw) ↔
     ∃ Q A, Q ∈ raw ∧ A ∈ raw
       ∧ _Score Q >= 5 ∧ len (_Body Q) <= 1000
       ∧ _Score A >= 5 ∧ len (_Body A) <= 1000
       ∧ _ParentId Q = None ∧ _ParentId A = Some (_Id Q)
       ∧ d = mkTrainingDocument (_Id A)
               (get_text (_Body Q) +:+ separator +:+ get_text (_Body A)))
  ∧ (∀ A, (∀ Q, Q ∈ raw → _ParentId A = Some (_Id Q) →
              _ParentId Q = None → _Score Q < 5 ∨ len (_Body Q) > 1000) →
       ∀ q, (q, mkCleanedPost (_Id A) (get_text (_Body A)) (_ParentId A))
            ∉ qa_join (gardening_df get_text raw)).
Proof.
  split.
  - intros d. rewrite elem_of_docs_df. split.
    + intros (q & a & (Q & HQ & ? & ? & ->)%elem_of_gardening_df
                & (A & HA & ? & ? & ->)%elem_of_gardening_df
                & Hnull & Hpar & ->).
      cbn in *. by exists Q, A.
    + intros (Q & A & HQ & HA & ? & ? & ? & ? & Hnull & Hpar & ->).
      exists (mkCleanedPost (_Id Q) (get_text (_Body Q)) (_ParentId Q)),
             (mkCleanedPost (_Id A) (get_text (_Body A)) (_ParentId A)).
      split_and!; [apply elem_of_gardening_df; by exists Q
                  |apply elem_of_gardening_df; by exists A|done..].
  - intros A Hdropped q
      ((Q & HQ & ? & ? & ->)%elem_of_gardening_df & _ & Hnull & Hpar)
        %elem_of_qa_join.
    cbn in *. destruct (Hdropped Q HQ Hpar Hnull); lia.
Qed.

(** A good answer whose question has a low score is lost with it. *)
Example answer_to_a_dropped_question (get_text : string → string) :
  docs_df (gardening_df get_text
    [mkPost 1 None 4 "<p>Unpopular question?</p>";
     mkPost 2 (Some 1) 50 "<p>Excellent answer.</p>"])
  = [].
Proof. reflexivity. Qed.

(** ** The parser and its exceptions *)

Section RaisingParserFacts.
Variable parse : string → result string.

Lemma html_to_text_raising_Ok (get_text : string → string) (df : list Post) :
  (∀ p, p ∈ df → parse (_Body p) = Ok (get_text (_Body p))) →
  html_to_text_raising parse (_Body <$> df)
  = Ok (html_to_text get_text (_Body <$> df)).
Proof.
  unfold html_to_text_raising, Series_apply, html_to_text.
  induction df as [|p df IH]; intros Hparse; [done|].
  cbn [fmap list_fmap]. rewrite mapM_cons, (Hparse p) by left.
  rewrite IH; [done|]. intros p' Hp'. apply Hparse. by right.
Qed.

Lemma filter_and_clean_raising_Ok (get_text : string → string)
    (raw : list Post) (metastore : gmap string table) :
  (∀ p, p ∈ filtered raw → parse (_Body p) = Ok (get_text (_Body p))) →
  filter_and_clean_raising parse raw metastore
  = Ok (filter_and_clean get_text raw metastore).
Proof.
  intros Hparse. unfold filter_and_clean_raising.
  by rewrite (html_to_text_raising_Ok get_text).
Qed.

Lemma filter_and_clean_raising_Raise (raw : list Post)
    (metastore : gmap string table) (p : Post) (e : exn) :
  p ∈ filtered raw → parse (_Body p) = Raise e →
  ∃ e', filter_and_clean_raising parse raw metastore = Raise e'.
Proof.
  intros Hp Hraise. unfold filter_and_clean_raising, html_to_text_raising,
    Series_apply.
  destruct (mapM_Raise parse (_Body <$> filtered raw) (_Body p) e)
    as [e' ->]; [|done|by exists e'].
  apply list_elem_of_fmap. by exists p.
Qed.

Lemma filter_and_clean_raising_ext (parse' : string → result string)
    (raw : list Post) (metastore : gmap string table) :
  (∀ p, p ∈ filtered raw → parse (_Body p) = parse' (_Body p)) →
  filter_and_clean_raising parse raw metastore
  = filter_and_clean_raising parse' raw metastore.
Proof.
  intros Hagree. unfold filter_and_clean_raising, html_to_text_raising,
    Series_apply.
  rewrite (mapM_ext_Forall parse parse'); [done|].
  apply Forall_fmap, Forall_forall. intros p Hp. by apply Hagree.
Qed.

End RaisingParserFacts.

(** X13: the notebook from the dump to the documents.  When the parser
    returns on the body of every post that passes the two filters, the run
    of stages 3 and 4 ends well on any metastore: stage 4 finds the table
    that stage 3 has just saved, the two tables then hold the cleaned posts
    and the documents of this dump whatever they held before, every other
    table is as it was, and a second run on the same dump changes
    nothing. *)
Theorem notebook_tables (parse : string → result string)
    (get_text : string → string) (raw : list Post)
    (before : gmap string table) :
  (∀ p, p ∈ raw → _Score p >= 5 → len (_Body p) <= 1000 →
        parse (_Body p) = Ok (get_text (_Body p))) →
  ∃ after, notebook_raising parse raw before = Ok (Some after)
    ∧ spark_table "gardening_dataset" after
      = Some (CleanedPosts (gardening_df get_text raw))
    ∧ spark_table "gardening_training_dataset" after
      = Some (TrainingDocuments (docs_df (gardening_df get_text raw)))
    ∧ (∀ name, name ≠ "gardening_dataset" →
         name ≠ "gardening_training_dataset" →
         spark_table name after = spark_table name before)
    ∧ notebook_raising parse raw after = Ok (Some after).
Proof.
  intros Hparse.
  assert (∀ p, p ∈ filtered raw → parse (_Body p) = Ok (get_text (_Body p)))
    as Hkept.
  { intros p (Hp & Hscore & Hlen)%elem_of_filtered. by apply Hparse. }
  destruct (notebook_after get_text raw before)
    as (after & Hrun & Hposts & Hdocs & Hframe & Hagain).
  exists after. unfold notebook_raising, notebook in *.
  rewrite !(filter_and_clean_raising_Ok parse get_text) by done.
  cbn. by rewrite Hrun, Hagain.
Qed.

Lemma notebook_tables_roses :
  (∀ p, p ∈ [mkPost 1 None 8 "How to water roses?";
             mkPost 2 (Some 1) 6 "Water daily."] →
        _Score p >= 5 → len (_Body p) <= 1000 →
        rejecting_parser "<" (_Body p) = Ok (_Body p))
  ∧ ∃ after,
      notebook_raising (rejecting_parser "<")
        [mkPost 1 None 8 "How to water roses?";
         mkPost 2 (Some 1) 6 "Water daily."] ∅ = Ok (Some after)
      ∧ spark_table "gardening_training_dataset" after
        = Some (TrainingDocuments
                  [mkTrainingDocument 2
                     ("How to water roses?" +:+ separator
                      +:+ "Water daily.")]).
Proof.
  assert (Hparse : ∀ p, p ∈ [mkPost 1 None 8 "How to water roses?";
                             mkPost 2 (Some 1) 6 "Water daily."] →
            _Score p >= 5 → len (_Body p) <= 1000 →
            rejecting_parser "<" (_Body p) = Ok (_Body p)).
  { intros p Hp _ _.
    repeat (apply elem_of_cons in Hp as [->|Hp]; [vm_compute; reflexivity|]).
    by apply elem_of_nil in Hp. }
  split; [exact Hparse|].
  destruct (notebook_tables (rejecting_parser "<") (λ x, x) _ ∅ Hparse)
    as (after & Hrun & _ & Hdocs & _).
  exists after. split; [exact Hrun|exact Hdocs].
Defined.

(** X15: stage 3 handles no exception of the parser, and runs the parser on
    the posts that pass the two filters and on no other.  If the parser
    raises on the body of one such post, stage 3 raises and so does the
    notebook; and two parsers that agree on the bodies of those posts give
    the same run, however they differ on the bodies that the filters
    drop. *)
Theorem parser_failure_aborts (parse : string → result string)
    (raw : list Post) (metastore : gmap string table) :
  (∀ p e, p ∈ raw → _Score p >= 5 → len (_Body p) <= 1000 →
     parse (_Body p) = Raise e →
     ∃ e', filter_and_clean_raising parse raw metastore = Raise e'
           ∧ notebook_raising parse raw metastore = Raise e')
  ∧ (∀ parse' : string → result string,
       (∀ p, p ∈ raw → _Score p >= 5 → len (_Body p) <= 1000 →
             parse (_Body p) = parse' (_Body p)) →
       filter_and_clean_raising parse raw metastore
       = filter_and_clean_raising parse' raw metastore
       ∧ notebook_raising parse raw metastore
         = notebook_raising parse' raw metastore).
Proof.
  split.
  - intros p e Hp Hscore Hlen Hraise.
    destruct (filter_and_clean_raising_Raise parse raw metastore p e)
      as [e' He']; [by apply elem_of_filtered|done|].
    exists e'. unfold notebook_raising. by rewrite He'.
  - intros parse' Hagree.
    assert (filter_and_clean_raising parse raw metastore
            = filter_and_clean_raising parse' raw metastore) as Heq.
    { apply filter_and_clean_raising_ext.
      intros p (Hp & Hscore & Hlen)%elem_of_filtered. by apply Hagree. }
    unfold notebook_raising. by rewrite Heq.
Qed.

(** The body ["<"] stops the run when its post passes the filters, and goes
    unnoticed when its post is dropped for its score. *)
Example parser_failure_example :
  notebook_raising (rejecting_parser "<")
    [mkPost 1 None 8 "Question?"; mkPost 2 (Some 1) 6 "<"] ∅
  = Raise IndexError
  ∧ filter_and_clean_raising (rejecting_parser "<")
      [mkPost 1 None 8 "Question?"; mkPost 2 (Some 1) 2 "<"] ∅
    = Ok (filter_and_clean (λ x, x) [mkPost 1 None 8 "Question?"] ∅).
Proof. split; vm_compute; reflexivity. Qed.
